(** * Session bootstrap of the Leaf UI client (ui-client/src/actions/session.ts)

    A shallow embedding of [getResponderIdentities], [attestAndLoadSession],
    [handleSessionReload] and [logout], with the JavaScript runtime pieces
    they rely on (string slicing, promise settlement, try/catch around
    awaited calls) written out as explicit state passing. *)

From Stdlib Require Import ZArith QArith Qround String Ascii List Sorted Lia.
From stdpp Require Import base decidable option list gmap strings pretty.

Set Warnings "-clear-no-such-hyp".

Open Scope string_scope.
Open Scope list_scope.
Open Scope Z_scope.

(** ** JavaScript string primitives used by the session code *)
Module Js.

(** [s.substring(start, end)]: both indices are clamped to [0, length] and
    swapped when out of order; the code units in [lo, hi) are returned. *)
Definition substring (s : string) (start end_ : Z) : string :=
  let len := Z.of_nat (String.length s) in
  let a := Z.max 0 (Z.min start len) in
  let b := Z.max 0 (Z.min end_ len) in
  let lo := Z.min a b in
  let hi := Z.max a b in
  String.substring (Z.to_nat lo) (Z.to_nat (hi - lo)) s.

(** [s.endsWith(suffix)]. *)
Definition endsWith (s suffix : string) : bool :=
  let n := String.length s in
  let m := String.length suffix in
  if decide (m <= n)%nat
  then bool_decide (String.substring (n - m) m s = suffix)
  else false.

(** [s.length] as a JavaScript number. *)
Definition length (s : string) : Z := Z.of_nat (String.length s).

(** Interpolation [`${n}`] of an integer-valued number: decimal digits with
    a leading minus sign for negatives (Number::toString below 1e21). *)
Definition numberToString (n : Z) : string := pretty n.

(** Truthiness of an optional string: [undefined] and the empty string are
    falsy. *)
Definition truthy (s : option string) : bool :=
  match s with
  | Some (String _ _) => true
  | _ => false
  end.

End Js.

(** ** Outcome of an awaited call *)
Inductive Outcome (A : Type) : Type :=
| Done (a : A)      (* the promise resolved, or the call returned *)
| Threw             (* the promise rejected, or the call threw *)
| Pending.          (* the promise never settles *)
Arguments Done {A} a.
Arguments Threw {A}.
Arguments Pending {A}.

(** ** Data model (models/Session, models/NetworkResponder, models/Auth)

    [JsValue] stands for the payloads the session code hands on without
    looking inside them (claims, display metadata, option tables, errors). *)
Section Session.
Variable JsValue : Type.
Set Implicit Arguments.
Set Maximal Implicit Insertion.

Record Attestation := {
  isIdentified : bool;
  att_claims : JsValue }.

Record UserContext := {
  uc_name : string;
  isAdmin : bool;
  isFederatedOkay : bool }.

Inductive AuthMechanismType :=
| Unsecured
| Secured (which : nat).

Record AuthenticationConfig := {
  mechanism : AuthMechanismType;
  logoutUri : option string }.

Record AuthConfig := { authentication : AuthenticationConfig }.

(** [userContext] and [config] are read through non-null assertions in the
    source; they are present whenever the session actions run. *)
Record AuthState := {
  config : AuthConfig;
  userContext : UserContext }.

Record AppState := {
  auth : AuthState;
  dataImport : JsValue }.

Record SessionContext := {
  access_nonce : string;          (* rawDecoded["access-nonce"] *)
  ctx_token : JsValue }.

(** A configured partner node, as listed by the home server. *)
Record NetworkIdentityResponseDTO := {
  nr_id : Z;
  nr_address : string }.

Record NetworkIdentity := {
  ni_id : Z;
  ni_address : string;
  ni_enabled : bool;
  ni_isHomeNode : bool;
  ni_meta : JsValue }.

Record NetworkIdentityRespondersDTO := {
  identity : NetworkIdentity;
  responders : list NetworkIdentityResponseDTO }.

Record PrevSession := {
  timestamp : Z;                  (* seconds since the epoch *)
  queries_current : JsValue;
  panels : JsValue;
  panelFilters : JsValue }.

Record LogoutDTO := { logoutURI : option string }.

(** The click handlers of a confirmation modal are closures over
    [dispatch]; each is represented by the actions it dispatches. *)
Record ConfirmationModalState (A : Type) := {
  cm_body : string;
  cm_header : string;
  cm_onClickNo : list A;
  cm_onClickYes : list A;
  cm_show : bool;
  cm_noButtonText : string;
  cm_yesButtonText : string }.
Arguments cm_body {A}.
Arguments cm_header {A}.
Arguments cm_onClickNo {A}.
Arguments cm_onClickYes {A}.
Arguments cm_show {A}.
Arguments cm_noButtonText {A}.
Arguments cm_yesButtonText {A}.

(** Redux actions built by the action creators the session code calls. *)
#[warnings="-register-all"] Inductive Action :=
| SetSessionLoadState (sessionLoadDisplay : string) (sessionLoadProgressPercent : Z)
| SubmitAttestation (attestation : Attestation)
| SetSessionContext (context : SessionContext)
| CompleteAttestation (nonce : string)
| ErrorAttestation (error : bool)
| SetUserInquiryState (email : string) (show : bool)
| SetAdminNetworkIdentity (identity : NetworkIdentity) (changed : bool)
| SetResponders (responders : list NetworkIdentity)
| RegisterNetworkCohorts (responders : list NetworkIdentity)
| SetExportOptions (opts : JsValue)
| SetImportOptions (opts : JsValue)
| SetDatasets (datasets categorized : JsValue)
| AddSavedQueries (saved : JsValue)
| SetExtensionRootConcepts (concepts : JsValue)
| ShowConfirmationModal (confirm : ConfirmationModalState Action)
| SetCurrentQuery (query : JsValue)
| SetPanels (panels : JsValue)
| SetPanelFilterActiveStates (filters : JsValue).

(** Calls that leave the module: services, the logger, the browser. *)
Inductive Collaborator :=
| GetSessionTokenAndContext (attestation : Attestation)
| FetchHomeIdentityAndResponders
| FetchResponderIdentity (nr : NetworkIdentityResponseDTO)
| ErrorResponder (id : Z) (error : JsValue)
| GetExportOptions
| GetImportOptions
| RequestRootConcepts
| FetchAvailableDatasets
| IndexDatasets (datasets : JsValue)
| GetSavedQueries
| GetExtensionRootConcepts (dataImport saved : JsValue)
| InitializeSearchEngine
| GetPrevSession
| ConsoleLog
| LogoutFromServer
| ClearCurrentUserToken (config : AuthConfig)
| SetWindowLocation (uri : string)
| WindowLocationReload.

Inductive Event :=
| Dispatch (a : Action)
| Call (c : Collaborator).

(** *** getResponderIdentities *)

(** Settlement of one [fetchResponderIdentity] promise. *)
Inductive FetchResult :=
| Resolved (data : NetworkIdentity)        (* response.data *)
| Rejected (error : JsValue).

(** Mutable state of one fan-out: the [responders] array being filled, the
    descriptor objects of [homebase.responders] (updated in place), which
    per-node promises have resolved, and the calls made so far. *)
Record Fanout := {
  fo_responders : list NetworkIdentity;
  fo_nodes : list NetworkIdentityResponseDTO;
  fo_resolved : gset nat;
  fo_trace : list Event }.

(** The slash-stripping step at the top of the [map] callback. *)
Definition stripTrailingSlash (nr : NetworkIdentityResponseDTO) : NetworkIdentityResponseDTO :=
  if Js.endsWith (nr_address nr) "/"
  then {| nr_id := nr_id nr;
          nr_address := Js.substring (nr_address nr) 0 (Js.length (nr_address nr) - 1) |}
  else nr.

(** One call of the [map] callback on element [id]: the address is
    rewritten in place, then the promise executor runs at once and issues
    the request with the rewritten descriptor. *)
Definition launch (st : Fanout) (id : nat) : Fanout :=
  match fo_nodes st !! id with
  | None => st
  | Some nr =>
      let nr' := stripTrailingSlash nr in
      {| fo_responders := fo_responders st;
         fo_nodes := <[id := nr']> (fo_nodes st);
         fo_resolved := fo_resolved st;
         fo_trace := fo_trace st ++ [Call (FetchResponderIdentity nr')] |}
  end.

(** [{ ...response.data, address, enabled: true, id: id + 1, isHomeNode: false }] *)
Definition responderIdentity (data : NetworkIdentity) (address : string) (id : nat) : NetworkIdentity :=
  {| ni_id := Z.of_nat id + 1;
     ni_address := address;
     ni_enabled := true;
     ni_isHomeNode := false;
     ni_meta := ni_meta data |}.

(** The request of element [id] settles with [r]: the fulfilment handler
    pushes onto [responders], the rejection handler calls [errorResponder];
    either way the chained [then] resolves the per-node promise.  A promise
    settles once, so a second settlement of the same element is ignored. *)
Definition settle (st : Fanout) (ev : nat * FetchResult) : Fanout :=
  let (id, r) := ev in
  if decide (id ∈ fo_resolved st) then st
  else
    match fo_nodes st !! id with
    | None => st
    | Some nr =>
        match r with
        | Resolved data =>
            {| fo_responders := fo_responders st ++ [responderIdentity data (nr_address nr) id];
               fo_nodes := fo_nodes st;
               fo_resolved := {[id]} ∪ fo_resolved st;
               fo_trace := fo_trace st |}
        | Rejected error =>
            {| fo_responders := fo_responders st;
               fo_nodes := fo_nodes st;
               fo_resolved := {[id]} ∪ fo_resolved st;
               fo_trace := fo_trace st ++ [Call (ErrorResponder (nr_id nr) error)] |}
        end
    end.

(** [await Promise.all(ps)]: resumes once every element has resolved. *)
Definition allResolved (st : Fanout) : bool :=
  bool_decide (Forall (λ id, id ∈ fo_resolved st) (seq 0 (List.length (fo_nodes st)))).

(** [settlements] is the order in which the network answers, each entry
    naming the element of [homebase.responders] whose request settles. *)
Definition getResponderIdentities (state : AppState) (attestation : Attestation)
    (homebase : NetworkIdentityRespondersDTO)
    (settlements : list (nat * FetchResult)) (trace : list Event)
  : Fanout * Outcome (list NetworkIdentity) :=
  let st0 := {| fo_responders := [identity homebase];
                fo_nodes := responders homebase;
                fo_resolved := ∅;
                fo_trace := trace |} in
  if negb (isIdentified attestation)
     && negb (Nat.eqb (List.length (responders homebase)) 0)
     && isFederatedOkay (userContext (auth state))
  then
    let st1 := foldl launch st0 (seq 0 (List.length (responders homebase))) in
    let st2 := foldl settle st1 settlements in
    if allResolved st2 then (st2, Done (fo_responders st2)) else (st2, Pending)
  else (st0, Done (fo_responders st0)).

(** *** The world outside the module

    What each service answers is not decided by the session code; one
    record fixes the answers of a run.  The Redux store is seen through
    [getState()], whose value depends on everything that happened so far
    (the reducers are not part of this module). *)
Record World := {
  store : list Event → AppState;
  w_getSessionTokenAndContext : Outcome SessionContext;
  w_fetchHomeIdentityAndResponders : Outcome NetworkIdentityRespondersDTO;
  w_settlements : list (nat * FetchResult);
  w_getExportOptions : Outcome JsValue;           (* response.data *)
  w_getImportOptions : Outcome JsValue;           (* response.data *)
  w_requestRootConcepts : Outcome unit;
  w_fetchAvailableDatasets : Outcome JsValue;
  w_indexDatasets : Outcome JsValue;
  w_getSavedQueries : Outcome JsValue;
  w_getExtensionRootConcepts : Outcome JsValue;
  w_initializeSearchEngine : Outcome unit;
  w_getPrevSession : Outcome (option PrevSession);
  w_now : Z;                                      (* new Date().getTime() *)
  w_logoutFromServer : Outcome (option LogoutDTO) }.

(** *** A program is a function on the trace of events so far *)
Definition Prog (A : Type) : Type := list Event → list Event * Outcome A.

Definition ret {A} (a : A) : Prog A := λ t, (t, Done a).

Definition bind {A B} (m : Prog A) (k : A → Prog B) : Prog B :=
  λ t, match m t with
       | (t', Done a) => k a t'
       | (t', Threw) => (t', Threw)
       | (t', Pending) => (t', Pending)
       end.

Definition dispatch (a : Action) : Prog unit := λ t, (t ++ [Dispatch a], Done tt).

(** A call to a collaborator, settled by the world with outcome [r]. *)
Definition call {A} (c : Collaborator) (r : Outcome A) : Prog A := λ t, (t ++ [Call c], r).

Definition getState (W : World) : Prog AppState := λ t, (t, Done (store W t)).

(** [try { body } catch (err) { handler }] *)
Definition tryCatch (body handler : Prog unit) : Prog unit :=
  λ t, match body t with
       | (t', Threw) => handler t'
       | r => r
       end.

Notation "x <- m ;; k" := (bind m (λ x, k))
  (at level 100, m at next level, right associativity, only parsing).
Notation "m ;;; k" := (bind m (λ _, k))
  (at level 100, right associativity, only parsing).

(** [await getResponderIdentities(getState, attestation, homeBase)] *)
Definition awaitResponderIdentities (W : World) (attestation : Attestation)
    (homeBase : NetworkIdentityRespondersDTO) : Prog (list NetworkIdentity) :=
  λ t, let (st, r) := getResponderIdentities (store W t) attestation homeBase (w_settlements W) t in
       (fo_trace st, r).

(** *** handleSessionReload *)

(** [Math.floor(((new Date().getTime() / 1000) - prev.timestamp) / 60)],
    with the arithmetic of JavaScript numbers taken as exact. *)
Definition diffMinutes (now : Z) (prev : PrevSession) : Z :=
  Qfloor (((inject_Z now / 1000) - inject_Z (timestamp prev)) / 60)%Q.

Definition diffDisplay (diffMinutes : Z) : string :=
  if decide (diffMinutes = 0) then "less than a minute ago"
  else if decide (diffMinutes = 1) then "about 1 minute ago"
  else "about " +:+ Js.numberToString diffMinutes +:+ " minutes ago".

Definition onClickYes (prev : PrevSession) : list Action :=
  [ SetCurrentQuery (queries_current prev);
    SetPanels (panels prev);
    SetPanelFilterActiveStates (panelFilters prev) ].

Definition resumeConfirmation (prev : PrevSession) (diffMinutes : Z) : ConfirmationModalState Action :=
  {| cm_body := "Do you want to resume your previous session (saved " +:+ diffDisplay diffMinutes +:+ ")?";
     cm_header := "Continue previous session";
     cm_onClickNo := [];
     cm_onClickYes := onClickYes prev;
     cm_show := true;
     cm_noButtonText := "No, I'll start fresh";
     cm_yesButtonText := "Yes, load my previous query" |}.

Definition handleSessionReload (W : World) (state : AppState) : Prog unit :=
  prev <- call GetPrevSession (w_getPrevSession W) ;;
  match prev with
  | Some prev =>
      let diffMinutes := diffMinutes (w_now W) prev in
      if decide (diffMinutes < 60 * 8)
      then dispatch (ShowConfirmationModal (resumeConfirmation prev diffMinutes))
      else ret tt
  | None => ret tt
  end.

(** *** attestAndLoadSession *)

Definition errorMessage : string :=
  "Uh oh. Something went wrong while loading Leaf information from the server. Please contact your Leaf administrator.".

(** The [try] block. *)
Definition attestAndLoadSession_try (W : World) (attestation : Attestation) : Prog unit :=
  dispatch (SetSessionLoadState "Submitting Attestation" 5) ;;;
  dispatch (SubmitAttestation attestation) ;;;
  ctx <- call (GetSessionTokenAndContext attestation) (w_getSessionTokenAndContext W) ;;
  dispatch (SetSessionContext ctx) ;;;
  state <- getState W ;;
  dispatch (SetUserInquiryState (uc_name (userContext (auth state))) false) ;;;

  dispatch (SetSessionLoadState "Finding Home Leaf server" 10) ;;;
  homeBase <- call FetchHomeIdentityAndResponders (w_fetchHomeIdentityAndResponders W) ;;
  state <- getState W ;;
  (if isAdmin (userContext (auth state))
   then dispatch (SetAdminNetworkIdentity (identity homeBase) false)
   else ret tt) ;;;

  dispatch (SetSessionLoadState "Finding Partner Leaf servers" 20) ;;;
  responders <- awaitResponderIdentities W attestation homeBase ;;
  dispatch (SetResponders responders) ;;;
  dispatch (RegisterNetworkCohorts responders) ;;;

  dispatch (SetSessionLoadState "Loading Export options" 30) ;;;
  exportOpts <- call GetExportOptions (w_getExportOptions W) ;;
  dispatch (SetExportOptions exportOpts) ;;;

  dispatch (SetSessionLoadState "Loading Import options" 40) ;;;
  importOpts <- call GetImportOptions (w_getImportOptions W) ;;
  dispatch (SetImportOptions importOpts) ;;;

  dispatch (SetSessionLoadState "Loading Concepts" 50) ;;;
  call RequestRootConcepts (w_requestRootConcepts W) ;;;

  dispatch (SetSessionLoadState "Loading Patient List Datasets" 60) ;;;
  datasets <- call FetchAvailableDatasets (w_fetchAvailableDatasets W) ;;
  datasetsCategorized <- call (IndexDatasets datasets) (w_indexDatasets W) ;;
  dispatch (SetDatasets datasets datasetsCategorized) ;;;

  dispatch (SetSessionLoadState "Loading Saved Queries" 70) ;;;
  savedCohorts <- call GetSavedQueries (w_getSavedQueries W) ;;
  dispatch (AddSavedQueries savedCohorts) ;;;

  dispatch (SetSessionLoadState "Loading Extension Concepts" 80) ;;;
  state <- getState W ;;
  extensionConcepts <- call (GetExtensionRootConcepts (dataImport state) savedCohorts)
                            (w_getExtensionRootConcepts W) ;;
  dispatch (SetExtensionRootConcepts extensionConcepts) ;;;

  dispatch (SetSessionLoadState "Initializing Search Engine" 100) ;;;
  call InitializeSearchEngine (w_initializeSearchEngine W) ;;;

  dispatch (CompleteAttestation (access_nonce ctx)) ;;;

  state <- getState W ;;
  handleSessionReload W state.

(** The [catch] block. *)
Definition attestAndLoadSession_catch : Prog unit :=
  call ConsoleLog (Done tt) ;;;
  dispatch (SetSessionLoadState errorMessage 0) ;;;
  dispatch (ErrorAttestation true).

Definition attestAndLoadSession (W : World) (attestation : Attestation) : Prog unit :=
  tryCatch (attestAndLoadSession_try W attestation) attestAndLoadSession_catch.

(** *** logout *)

(** Modelled from the spec: [logoutFromServer] (services/sessionApi) is not
    among the sources.  The token service's logout is specified as
    [logout(state) -> {logoutURI?} | null]: the call answers with the
    server's logout record, or with null when blacklisting did not go
    through.  It is awaited like any other call. *)
Definition logoutFromServer (W : World) : Prog (option LogoutDTO) :=
  call LogoutFromServer (w_logoutFromServer W).

Definition logout (W : World) : Prog unit :=
  state <- getState W ;;
  let config := config (auth state) in
  let logoutUri := logoutUri (authentication config) in
  logoutUri <-
    (match mechanism (authentication config) with
     | Unsecured => ret logoutUri
     | Secured _ =>
         loggedOut <- logoutFromServer W ;;
         call (ClearCurrentUserToken config) (Done tt) ;;;
         ret (match loggedOut with
              | Some dto => logoutURI dto
              | None => logoutUri
              end)
     end) ;;
  match logoutUri with
  | Some uri => if Js.truthy logoutUri
                then call (SetWindowLocation uri) (Done tt)
                else call WindowLocationReload (Done tt)
  | None => call WindowLocationReload (Done tt)
  end.

(** *** Vocabulary of the statements *)

(** Progress values carried by the load states of a trace, in order. *)
Definition progressOf (e : Event) : option Z :=
  match e with
  | Dispatch (SetSessionLoadState _ percent) => Some percent
  | _ => None
  end.

Definition progressValues (t : list Event) : list Z := omap progressOf t.

(** Whether the world lets a stage-level call fail. *)
Definition isThrew {A} (r : Outcome A) : bool :=
  match r with Threw => true | _ => false end.

Definition fails (W : World) (c : Collaborator) : bool :=
  match c with
  | GetSessionTokenAndContext _ => isThrew (w_getSessionTokenAndContext W)
  | FetchHomeIdentityAndResponders => isThrew (w_fetchHomeIdentityAndResponders W)
  | GetExportOptions => isThrew (w_getExportOptions W)
  | GetImportOptions => isThrew (w_getImportOptions W)
  | RequestRootConcepts => isThrew (w_requestRootConcepts W)
  | FetchAvailableDatasets => isThrew (w_fetchAvailableDatasets W)
  | IndexDatasets _ => isThrew (w_indexDatasets W)
  | GetSavedQueries => isThrew (w_getSavedQueries W)
  | GetExtensionRootConcepts _ _ => isThrew (w_getExtensionRootConcepts W)
  | InitializeSearchEngine => isThrew (w_initializeSearchEngine W)
  | GetPrevSession => isThrew (w_getPrevSession W)
  | _ => false
  end.

(** The entry a settlement pushes, given the descriptors as the [map]
    callback left them. *)
Definition pushedBy (nodes : list NetworkIdentityResponseDTO) (ev : nat * FetchResult)
  : option NetworkIdentity :=
  match ev with
  | (id, Resolved data) =>
      match nodes !! id with
      | Some nr => Some (responderIdentity data (nr_address nr) id)
      | None => None
      end
  | (_, Rejected _) => None
  end.

(** The [errorResponder] call a settlement makes. *)
Definition reportedBy (nodes : list NetworkIdentityResponseDTO) (ev : nat * FetchResult)
  : option Event :=
  match ev with
  | (id, Rejected error) =>
      match nodes !! id with
      | Some nr => Some (Call (ErrorResponder (nr_id nr) error))
      | None => None
      end
  | (_, Resolved _) => None
  end.

(** The request the [map] callback issues for a configured descriptor. *)
Definition requestOf (nr : NetworkIdentityResponseDTO) : Event :=
  Call (FetchResponderIdentity nr).

Definition succeeded (ev : nat * FetchResult) : bool :=
  match ev with (_, Resolved _) => true | (_, Rejected _) => false end.

(** Every one of the [n] requests settles exactly once. *)
Definition settlesAll (n : nat) (settlements : list (nat * FetchResult)) : Prop :=
  settlements.*1 ≡ₚ seq 0 n.

(** The guard in front of the fan-out. *)
Definition fansOut (state : AppState) (attestation : Attestation)
    (homebase : NetworkIdentityRespondersDTO) : Prop :=
  isIdentified attestation = false
  ∧ responders homebase ≠ []
  ∧ isFederatedOkay (userContext (auth state)) = true.

(** Responder ids as the specification words them: the entry at position
    [i] among the appended ones carries id [i + 1]. *)
Definition idsByCompletionOrder (rs : list NetworkIdentity) : Prop :=
  ∀ i r, tail rs !! i = Some r → ni_id r = Z.of_nat i + 1.

Definition isErrorReport (e : Event) : bool :=
  match e with Call (ErrorResponder _ _) => true | _ => false end.

(** Calls made on behalf of a single partner node. *)
Definition isNodeCall (e : Event) : bool :=
  match e with
  | Call (FetchResponderIdentity _) | Call (ErrorResponder _ _) => true
  | _ => false
  end.

(** The entry appended for a successful settlement [ev] of the request to
    element [ev.1] of the configured list [nodes]. *)
Definition appendedFor (nodes : list NetworkIdentityResponseDTO)
    (ev : nat * FetchResult) (r : NetworkIdentity) : Prop :=
  ∃ data nr,
    ev.2 = Resolved data ∧ nodes !! ev.1 = Some nr
    ∧ r = {| ni_id := Z.of_nat ev.1 + 1;
             ni_address := nr_address (stripTrailingSlash nr);
             ni_enabled := true;
             ni_isHomeNode := false;
             ni_meta := ni_meta data |}.

(** An event that is not a failed stage-level call. *)
Definition quietEvent (W : World) (e : Event) : bool :=
  match e with
  | Call c => negb (fails W c)
  | Dispatch _ => true
  end.

Definition quiet (W : World) (t : list Event) : Prop :=
  Forall (λ e, quietEvent W e = true) t.

(** The percentages announced by the stages, in program order. *)
Definition progressStages : list Z := [5; 10; 20; 30; 40; 50; 60; 70; 80; 100].

(** Invariant of the [try] block after [n] stages have been announced:
    no stage-level call has failed, and the announced percentages are the
    first [n] of the list. *)
Definition announced (W : World) (n : nat) (t : list Event) : Prop :=
  quiet W t ∧ progressValues t = take n progressStages.

(** What holds when the [try] block stops, by way of stopping. *)
Definition stopsWell (W : World) (res : list Event * Outcome unit) : Prop :=
  match res with
  | (t, Done _) => announced W 10 t
  | (t, Threw) =>
      ∃ n pre c, (1 ≤ n)%nat ∧ announced W n pre ∧ t = pre ++ [Call c] ∧ fails W c = true
  | (t, Pending) => ∃ n, (1 ≤ n)%nat ∧ announced W n t
  end.

(** A remainder of the [try] block entered after [n] announcements. *)
Definition continuesWell (W : World) (n : nat) (m : Prog unit) : Prop :=
  ∀ t, announced W n t → stopsWell W (m t).

(** The last step of [logout]: go to the redirect address when there is a
    non-empty one, reload otherwise. *)
Definition leaves (uri : option string) : Collaborator :=
  match uri with
  | Some (String c s) => SetWindowLocation (String c s)
  | _ => WindowLocationReload
  end.

(** Modelled from the spec: [fetchHomeIdentityAndResponders]
    (services/networkRespondersApi) is not among the sources; the data
    model states that the home node always occupies id 0. *)
Definition homeOccupiesId0 (homebase : NetworkIdentityRespondersDTO) : Prop :=
  ni_id (identity homebase) = 0.

End Session.
Unset Maximal Implicit Insertion.
Unset Implicit Arguments.

Arguments SetSessionLoadState {JsValue} sessionLoadDisplay sessionLoadProgressPercent.
Arguments CompleteAttestation {JsValue} nonce.
Arguments ErrorAttestation {JsValue} error.
Arguments SetUserInquiryState {JsValue} email show.
Arguments FetchHomeIdentityAndResponders {JsValue}.
Arguments FetchResponderIdentity {JsValue} nr.
Arguments GetExportOptions {JsValue}.
Arguments GetImportOptions {JsValue}.
Arguments RequestRootConcepts {JsValue}.
Arguments FetchAvailableDatasets {JsValue}.
Arguments GetSavedQueries {JsValue}.
Arguments InitializeSearchEngine {JsValue}.
Arguments GetPrevSession {JsValue}.
Arguments ConsoleLog {JsValue}.
Arguments LogoutFromServer {JsValue}.
Arguments ClearCurrentUserToken {JsValue} config.
Arguments SetWindowLocation {JsValue} uri.
Arguments WindowLocationReload {JsValue}.
Arguments attestAndLoadSession_catch {JsValue} _.
Arguments requestOf {JsValue} nr.
Arguments leaves {JsValue} uri.

(** ** Sample inputs

    A home node with two configured partners, one of them listed with a
    trailing slash, and a user who may run federated queries. *)
Module Sample.

Definition home : NetworkIdentity string :=
  {| ni_id := 0; ni_address := EmptyString; ni_enabled := true;
     ni_isHomeNode := true; ni_meta := "Home" |}.

Definition nodeA : NetworkIdentityResponseDTO := {| nr_id := 11; nr_address := "https://node.example/" |}.
Definition nodeB : NetworkIdentityResponseDTO := {| nr_id := 22; nr_address := "https://other.example" |}.
Definition nodeA' : NetworkIdentityResponseDTO := {| nr_id := 11; nr_address := "https://node.example" |}.

Definition homebase : NetworkIdentityRespondersDTO string :=
  {| identity := home; responders := [nodeA; nodeB] |}.

Definition homebase' : NetworkIdentityRespondersDTO string :=
  {| identity := home; responders := [nodeA'; nodeB] |}.

Definition user (federated : bool) : UserContext :=
  {| uc_name := "user@example.org"; isAdmin := false; isFederatedOkay := federated |}.

Definition appState (mech : AuthMechanismType) (uri : option string) (federated : bool) : AppState string :=
  {| auth := {| config := {| authentication := {| mechanism := mech; logoutUri := uri |} |};
                userContext := user federated |};
     dataImport := "import" |}.

(** The store as the fan-out finds it: federated queries allowed. *)
Definition state : AppState string := appState Unsecured None true.

Definition deidentified : Attestation string := {| isIdentified := false; att_claims := "claims" |}.
Definition identified : Attestation string := {| isIdentified := true; att_claims := "claims" |}.

(** What a partner answers: its own idea of the four overwritten fields is
    discarded by the spread. *)
Definition answer (meta : string) : NetworkIdentity string :=
  {| ni_id := 99; ni_address := "ignored"; ni_enabled := false;
     ni_isHomeNode := true; ni_meta := meta |}.

(** The second partner answers first. *)
Definition reversed : list (nat * FetchResult string) :=
  [ (1%nat, Resolved (answer "B")); (0%nat, Resolved (answer "A")) ].

(** The first partner is unreachable. *)
Definition oneDown : list (nat * FetchResult string) :=
  [ (1%nat, Resolved (answer "B")); (0%nat, Rejected "ECONNREFUSED") ].

Definition snapshot (ts : Z) : PrevSession string :=
  {| timestamp := ts; queries_current := "query"; panels := "panels"; panelFilters := "filters" |}.

Definition context : SessionContext string := {| access_nonce := "nonce"; ctx_token := "token" |}.

(** A world in which every service but perhaps the import options
    answers; the previous session, if any, was saved at second
    [timestamp prev] and the clock reads [now] milliseconds. *)
Definition serving (importOptions : Outcome string)
    (mech : AuthMechanismType) (uri : option string)
    (settlements : list (nat * FetchResult string))
    (prev : option (PrevSession string)) (now : Z)
    (loggedOut : Outcome (option LogoutDTO)) : World string :=
  {| store := λ _, appState mech uri true;
     w_getSessionTokenAndContext := Done context;
     w_fetchHomeIdentityAndResponders := Done homebase;
     w_settlements := settlements;
     w_getExportOptions := Done "export";
     w_getImportOptions := importOptions;
     w_requestRootConcepts := Done tt;
     w_fetchAvailableDatasets := Done "datasets";
     w_indexDatasets := Done "categorized";
     w_getSavedQueries := Done "saved";
     w_getExtensionRootConcepts := Done "extension";
     w_initializeSearchEngine := Done tt;
     w_getPrevSession := Done prev;
     w_now := now;
     w_logoutFromServer := loggedOut |}.

Definition world := serving (Done "import").

(** The same world with the import options out of reach. *)
Definition importDown := serving Threw.

(** No previous session; both partners answer. *)
Definition fresh : World string := world Unsecured None reversed None 0 (Done None).
Definition freshImportDown : World string := importDown Unsecured None reversed None 0 (Done None).

Definition earlier : World string :=
  world Unsecured None reversed (Some (snapshot 1000)) 700000 (Done None).


End Sample.

(** * Properties *)

(** ** String primitives *)

Lemma substring_all (b : string) : String.substring 0 (String.length b) b = b.
Proof. induction b as [|c b IH]; simpl; [done | by rewrite IH]. Qed.

Lemma substring_skip (a b : string) :
  String.substring (String.length a) (String.length b) (a +:+ b) = b.
Proof.
  induction a as [|c a IH]; simpl.
  - apply substring_all.
  - exact IH.
Qed.

Lemma substring_take (a b : string) :
  String.substring 0 (String.length a) (a +:+ b) = a.
Proof.
  induction a as [|c a IH]; simpl.
  - by destruct b.
  - by rewrite IH.
Qed.

Lemma length_append (a b : string) :
  String.length (a +:+ b) = (String.length a + String.length b)%nat.
Proof. induction a as [|c a IH]; simpl; [done | by rewrite IH]. Qed.


Lemma endsWith_append (a b : string) : Js.endsWith (a +:+ b) b = true.
Proof.
  unfold Js.endsWith. rewrite length_append.
  case_decide; [|lia].
  replace (String.length a + String.length b - String.length b)%nat
    with (String.length a) by lia.
  rewrite substring_skip. by apply bool_decide_eq_true.
Qed.

Lemma substring_drop_last (a : string) :
  Js.substring (a +:+ "/") 0 (Js.length (a +:+ "/") - 1) = a.
Proof.
  unfold Js.substring, Js.length. rewrite length_append. simpl String.length.
  set (n := String.length a).
  replace (Z.max 0 (Z.min 0 (Z.of_nat (n + 1)))) with 0 by lia.
  replace (Z.max 0 (Z.min (Z.of_nat (n + 1) - 1) (Z.of_nat (n + 1))))
    with (Z.of_nat n) by lia.
  replace (Z.min 0 (Z.of_nat n)) with 0 by lia.
  replace (Z.max 0 (Z.of_nat n) - 0) with (Z.of_nat n) by lia.
  rewrite Nat2Z.id. change (Z.to_nat 0) with 0%nat.
  apply substring_take.
Qed.

Example endsWith_slash : Js.endsWith "https://node.example/" "/" = true.
Proof. reflexivity. Qed.

Example endsWith_no_slash : Js.endsWith "https://node.example" "/" = false.
Proof. reflexivity. Qed.

Example numberToString_45 : Js.numberToString 45 = "45".
Proof. reflexivity. Qed.

Example numberToString_neg : Js.numberToString (-7) = "-7".
Proof. reflexivity. Qed.

(** A key that occurs once is bound to one value. *)
Lemma NoDup_fst_agree {A B} (l : list (A * B)) x y1 y2 :
  NoDup l.*1 → (x, y1) ∈ l → (x, y2) ∈ l → y1 = y2.
Proof.
  intros Hnodup H1 H2.
  apply list_elem_of_lookup in H1 as [i1 H1], H2 as [i2 H2].
  assert (i1 = i2) as ->; [|congruence].
  eapply NoDup_lookup; [exact Hnodup| |];
    rewrite list_lookup_fmap; [by rewrite H1|by rewrite H2].
Qed.

(** ** The fan-out of getResponderIdentities *)
Section Fanout.
Context {JsValue : Type}.
Implicit Types (nr : NetworkIdentityResponseDTO) (nodes : list NetworkIdentityResponseDTO).
Implicit Types (evs : list (nat * FetchResult JsValue)) (t : list (Event JsValue)).
Implicit Types (rs : list (NetworkIdentity JsValue)) (res : gset nat).
Implicit Types (state : AppState JsValue) (att : Attestation JsValue).
Implicit Types (hb : NetworkIdentityRespondersDTO JsValue).

Lemma stripTrailingSlash_slash id a :
  stripTrailingSlash {| nr_id := id; nr_address := a +:+ "/" |} = {| nr_id := id; nr_address := a |}.
Proof.
  unfold stripTrailingSlash; simpl.
  by rewrite endsWith_append, substring_drop_last.
Qed.

Lemma stripTrailingSlash_id nr : nr_id (stripTrailingSlash nr) = nr_id nr.
Proof. unfold stripTrailingSlash. by destruct (Js.endsWith _ _). Qed.

(** The synchronous [map]: element by element, in configuration order. *)
Lemma launch_from rs res (todo : list NetworkIdentityResponseDTO) :
  ∀ (done_ : list NetworkIdentityResponseDTO) t,
    foldl launch
      {| fo_responders := rs; fo_nodes := done_ ++ todo; fo_resolved := res; fo_trace := t |}
      (seq (List.length done_) (List.length todo))
    = {| fo_responders := rs; fo_nodes := done_ ++ (stripTrailingSlash <$> todo);
         fo_resolved := res; fo_trace := t ++ (requestOf ∘ stripTrailingSlash <$> todo) |}.
Proof.
  induction todo as [|nr todo IH]; intros done_ t; simpl.
  - by rewrite !app_nil_r.
  - unfold launch at 2; simpl.
    rewrite list_lookup_middle by done.
    rewrite insert_app_r_alt by lia. rewrite Nat.sub_diag; simpl.
    specialize (IH (done_ ++ [stripTrailingSlash nr])
                   (t ++ [requestOf (stripTrailingSlash nr)])).
    rewrite length_app in IH; simpl in IH.
    replace (List.length done_ + 1)%nat with (S (List.length done_)) in IH by lia.
    rewrite <- !app_assoc in IH; simpl in IH.
    exact IH.
Qed.

Lemma launch_all rs res nodes t :
  foldl launch
    {| fo_responders := rs; fo_nodes := nodes; fo_resolved := res; fo_trace := t |}
    (seq 0 (List.length nodes))
  = {| fo_responders := rs; fo_nodes := stripTrailingSlash <$> nodes;
       fo_resolved := res; fo_trace := t ++ (requestOf ∘ stripTrailingSlash <$> nodes) |}.
Proof. exact (launch_from rs res nodes [] t). Qed.

(** The settlements: each one runs exactly one of the two handlers. *)
Lemma settle_all nodes evs :
  ∀ rs res t,
    NoDup evs.*1 →
    (∀ id, id ∈ fst <$> evs → (id ∉ res) ∧ (id < List.length nodes)%nat) →
    foldl settle
      {| fo_responders := rs; fo_nodes := nodes; fo_resolved := res; fo_trace := t |} evs
    = {| fo_responders := rs ++ omap (pushedBy nodes) evs; fo_nodes := nodes;
         fo_resolved := list_to_set evs.*1 ∪ res;
         fo_trace := t ++ omap (reportedBy nodes) evs |}.
Proof.
  induction evs as [|[id r] evs IH]; intros rs res t Hnodup Hfresh; simpl.
  - rewrite !app_nil_r. f_equal. set_solver.
  - apply NoDup_cons in Hnodup as [Hid Hnodup].
    destruct (Hfresh id) as [Hnew Hlt]; [set_solver|].
    destruct (lookup_lt_is_Some_2 nodes id Hlt) as [nr Hnr].
    destruct (decide (id ∈ res)) as [|_]; [done|].
    rewrite Hnr.
    destruct r as [data|error]; rewrite IH; try done.
    + rewrite <- app_assoc. f_equal. set_solver.
    + intros id' Hin. split; [|apply Hfresh; set_solver].
      destruct (Hfresh id') as [? _]; set_solver.
    + rewrite <- app_assoc. f_equal. set_solver.
    + intros id' Hin. split; [|apply Hfresh; set_solver].
      destruct (Hfresh id') as [? _]; set_solver.
Qed.

Lemma settlesAll_NoDup n evs : settlesAll n evs → NoDup evs.*1.
Proof. intros H. unfold settlesAll in H. rewrite H. apply NoDup_seq. Qed.

Lemma settlesAll_lt n evs id : settlesAll n evs → id ∈ evs.*1 → (id < n)%nat.
Proof.
  intros H Hin. unfold settlesAll in H. rewrite H in Hin.
  apply elem_of_seq in Hin. lia.
Qed.

Lemma settlesAll_covers n evs id : settlesAll n evs → (id < n)%nat → id ∈ evs.*1.
Proof.
  intros H Hlt. unfold settlesAll in H. rewrite H.
  apply elem_of_seq. lia.
Qed.

Lemma fansOut_guard state att hb :
  fansOut state att hb →
  negb (isIdentified att) && negb (Nat.eqb (List.length (responders hb)) 0)
    && isFederatedOkay (userContext (auth state)) = true.
Proof.
  intros (-> & Hne & ->). destruct (responders hb); [done|reflexivity].
Qed.

(** With the guard false the function falls straight through. *)
Lemma fanout_not_entered state att hb evs t :
  isIdentified att = true
  ∨ isFederatedOkay (userContext (auth state)) = false
  ∨ responders hb = [] →
  getResponderIdentities state att hb evs t
  = ({| fo_responders := [identity hb]; fo_nodes := responders hb;
        fo_resolved := ∅; fo_trace := t |},
     Done [identity hb]).
Proof.
  intros Hskip. unfold getResponderIdentities.
  destruct Hskip as [-> | [-> | ->]]; simpl; [done| |by rewrite andb_false_r].
  by rewrite andb_false_r.
Qed.

(** What a whole run of the fan-out leaves behind. *)
Lemma fanout_run state att hb evs t :
  fansOut state att hb →
  settlesAll (List.length (responders hb)) evs →
  let nodes := stripTrailingSlash <$> responders hb in
  getResponderIdentities state att hb evs t
  = ({| fo_responders := identity hb :: omap (pushedBy nodes) evs;
        fo_nodes := nodes;
        fo_resolved := list_to_set evs.*1;
        fo_trace := t ++ (requestOf <$> nodes) ++ omap (reportedBy nodes) evs |},
     Done (identity hb :: omap (pushedBy nodes) evs)).
Proof.
  intros Hfan Hall nodes. unfold getResponderIdentities.
  rewrite (fansOut_guard _ _ _ Hfan).
  rewrite launch_all.
  rewrite settle_all.
  - unfold allResolved; simpl.
    rewrite bool_decide_eq_true_2.
    + subst nodes. rewrite <- list_fmap_compose, <- app_assoc.
      repeat f_equal; set_solver.
    + apply Forall_forall. intros id Hid.
      rewrite length_fmap in Hid. apply elem_of_seq in Hid.
      apply elem_of_union_l, elem_of_list_to_set.
      apply (settlesAll_covers _ _ _ Hall). lia.
  - by eapply settlesAll_NoDup.
  - intros id Hid. split; [set_solver|].
    rewrite length_fmap. by eapply settlesAll_lt.
Qed.

(** Facts about the settlements that hold for any schedule. *)
Lemma settle_nodes (st : Fanout JsValue) ev : fo_nodes (settle st ev) = fo_nodes st.
Proof.
  destruct ev as [id r]; unfold settle.
  destruct (decide _); [done|].
  destruct (fo_nodes st !! id); [|done]. by destruct r.
Qed.

Lemma settle_all_nodes evs : ∀ st : Fanout JsValue, fo_nodes (foldl settle st evs) = fo_nodes st.
Proof.
  induction evs as [|ev evs IH]; intros st; simpl; [done|].
  by rewrite IH, settle_nodes.
Qed.

Lemma settle_resolved (st : Fanout JsValue) ev :
  fo_resolved (settle st ev) ⊆ {[ev.1]} ∪ fo_resolved st.
Proof.
  destruct ev as [id r]; unfold settle; simpl.
  destruct (decide _); [set_solver|].
  destruct (fo_nodes st !! id); [|set_solver]. destruct r; simpl; set_solver.
Qed.

Lemma settle_all_resolved evs :
  ∀ st : Fanout JsValue,
    fo_resolved (foldl settle st evs) ⊆ list_to_set evs.*1 ∪ fo_resolved st.
Proof.
  induction evs as [|ev evs IH]; intros st; simpl; [set_solver|].
  specialize (IH (settle st ev)). pose proof (settle_resolved st ev). set_solver.
Qed.

Lemma settle_trace (st : Fanout JsValue) ev :
  ∃ t', fo_trace (settle st ev) = fo_trace st ++ t'
        ∧ Forall (λ e, isErrorReport e = true) t'.
Proof.
  destruct ev as [id r]; unfold settle.
  destruct (decide _); [exists []; by rewrite app_nil_r|].
  destruct (fo_nodes st !! id) as [nr|]; [|exists []; by rewrite app_nil_r].
  destruct r as [data|error]; simpl; [exists []; by rewrite app_nil_r|].
  eexists; split; [done|]. by repeat constructor.
Qed.

Lemma settle_all_trace evs :
  ∀ st : Fanout JsValue,
    ∃ t', fo_trace (foldl settle st evs) = fo_trace st ++ t'
          ∧ Forall (λ e, isErrorReport e = true) t'.
Proof.
  induction evs as [|ev evs IH]; intros st.
  - exists []. by rewrite app_nil_r.
  - destruct (IH (settle st ev)) as (t2 & Heq & Ht2).
    destruct (settle_trace st ev) as (t1 & Heq1 & Ht1).
    exists (t1 ++ t2). cbn [foldl]. rewrite Heq, Heq1, app_assoc.
    split; [done|]. by apply Forall_app.
Qed.

(** The barrier: one request that never settles keeps the caller waiting. *)
Lemma fanout_waits state att hb evs t id :
  fansOut state att hb →
  (id < List.length (responders hb))%nat → id ∉ evs.*1 →
  snd (getResponderIdentities state att hb evs t) = Pending.
Proof.
  intros Hfan Hlt Hid. unfold getResponderIdentities.
  rewrite (fansOut_guard _ _ _ Hfan), launch_all.
  destruct (allResolved _) eqn:Hall; [|done]. exfalso.
  unfold allResolved in Hall. apply bool_decide_eq_true in Hall.
  rewrite settle_all_nodes in Hall; simpl in Hall.
  rewrite length_fmap in Hall.
  rewrite Forall_forall in Hall. specialize (Hall id).
  apply Hid. 
  assert (id ∈ seq 0 (List.length (responders hb))) as Hin by (apply elem_of_seq; lia).
  apply Hall in Hin. apply settle_all_resolved in Hin; simpl in Hin. set_solver.
Qed.

(** The fan-out never rejects. *)
Lemma fanout_never_throws state att hb evs t :
  snd (getResponderIdentities state att hb evs t) ≠ Threw.
Proof.
  unfold getResponderIdentities.
  destruct (_ && _); [|done]. by destruct (allResolved _).
Qed.

(** Ids of the pushed entries, read off the settlements. *)
Lemma pushed_ids nodes evs :
  (∀ id, id ∈ fst <$> evs → (id < List.length nodes)%nat) →
  ni_id <$> omap (pushedBy nodes) evs
  = (λ ev, Z.of_nat ev.1 + 1) <$> filter (λ ev, succeeded ev = true) evs.
Proof.
  induction evs as [|[id r] evs IH]; intros Hlt; [done|].
  destruct (lookup_lt_is_Some_2 nodes id) as [nr Hnr]; [apply Hlt; set_solver|].
  rewrite filter_cons. cbn [omap list_omap pushedBy].
  destruct r as [data|error]; cbn [succeeded].
  - rewrite Hnr. rewrite decide_True by done. cbn. f_equal. apply IH.
    intros id' ?. apply Hlt. set_solver.
  - rewrite decide_False by done. apply IH. intros id' ?. apply Hlt. set_solver.
Qed.

Lemma pushed_length nodes evs :
  (∀ id, id ∈ fst <$> evs → (id < List.length nodes)%nat) →
  List.length (omap (pushedBy nodes) evs)
  = List.length (filter (λ ev, succeeded ev = true) evs).
Proof.
  intros Hlt. rewrite <- (length_fmap ni_id), pushed_ids by done.
  by rewrite length_fmap.
Qed.

Lemma pushed_appended nodes evs :
  (∀ id, id ∈ fst <$> evs → (id < List.length nodes)%nat) →
  Forall2 (appendedFor nodes)
    (filter (λ ev, succeeded ev = true) evs)
    (omap (pushedBy (stripTrailingSlash <$> nodes)) evs).
Proof.
  induction evs as [|[id r] evs IH]; intros Hlt; [constructor|].
  destruct (lookup_lt_is_Some_2 nodes id) as [nr Hnr]; [apply Hlt; set_solver|].
  assert (Forall2 (appendedFor nodes)
            (filter (λ ev, succeeded ev = true) evs)
            (omap (pushedBy (stripTrailingSlash <$> nodes)) evs)) as Htail.
  { apply IH. intros id' ?. apply Hlt. set_solver. }
  rewrite filter_cons. cbn [omap list_omap pushedBy].
  destruct r as [data|error]; cbn [succeeded].
  - rewrite list_lookup_fmap, Hnr. rewrite decide_True by done. cbn.
    constructor; [|exact Htail]. by exists data, nr.
  - by rewrite decide_False.
Qed.

(** Everything the fan-out adds to the trace is a per-node call. *)
Lemma fanout_trace state att hb evs t :
  ∃ t', fo_trace (fst (getResponderIdentities state att hb evs t)) = t ++ t'
        ∧ Forall (λ e, isNodeCall e = true) t'.
Proof.
  unfold getResponderIdentities.
  destruct (_ && _); [|exists []; by rewrite app_nil_r].
  rewrite launch_all.
  match goal with |- context [foldl settle ?st evs] =>
    destruct (settle_all_trace evs st) as (t2 & Heq & Ht2) end.
  exists ((requestOf ∘ stripTrailingSlash <$> responders hb) ++ t2).
  split.
  - destruct (allResolved _); simpl; rewrite Heq; simpl; by rewrite app_assoc.
  - apply Forall_app. split.
    + apply Forall_fmap, Forall_forall. by intros nr _.
    + eapply Forall_impl; [exact Ht2|]. by intros [[]|[]].
Qed.

End Fanout.

(** ** getResponderIdentities: what the caller gets back *)
Section Aggregator.
Context {JsValue : Type}.
Implicit Types (evs : list (nat * FetchResult JsValue)) (t : list (Event JsValue)).
Implicit Types (state : AppState JsValue) (att : Attestation JsValue).
Implicit Types (hb : NetworkIdentityRespondersDTO JsValue).

(** C1, as amended.  When the fan-out runs and every request settles, the
    entries behind the home identity are exactly the successful
    settlements, listed in the order in which they completed; each carries
    the node's configured address with the trailing slash stripped,
    [enabled = true], [isHomeNode = false], and an id equal to the node's
    index in the configured list plus one.  The id follows configuration
    order; only the position in the list follows completion order. *)
Theorem responder_ids_follow_configuration state att hb evs t :
  fansOut state att hb →
  settlesAll (List.length (responders hb)) evs →
  ∃ rs,
    snd (getResponderIdentities state att hb evs t) = Done (identity hb :: rs)
    ∧ Forall2 (appendedFor (responders hb)) (filter (λ ev, succeeded ev = true) evs) rs.
Proof.
  intros Hfan Hall.
  rewrite (fanout_run _ _ _ _ t Hfan Hall); simpl.
  eexists; split; [done|].
  apply pushed_appended. intros id Hid. by eapply settlesAll_lt.
Qed.

(** C2.  An identified attestation, a user who may not run federated
    queries, or an empty partner list: in each case no request is issued,
    no descriptor is touched, and the result is the home identity alone,
    however many partners are configured. *)
Theorem fanout_skipped state att hb evs t :
  isIdentified att = true
  ∨ isFederatedOkay (userContext (auth state)) = false
  ∨ responders hb = [] →
  getResponderIdentities state att hb evs t
  = ({| fo_responders := [identity hb]; fo_nodes := responders hb;
        fo_resolved := ∅; fo_trace := t |},
     Done [identity hb]).
Proof. apply fanout_not_entered. Qed.

(** C3.  The fan-out never rejects, whatever the partners do.  When it
    runs and every request settles, it resolves; each rejected request
    shows up as one [errorResponder] call carrying the configured id of
    its node and leaves no entry behind, each fulfilled request has its
    entry whatever happened to the others, and the number of entries is the
    number of fulfilled requests.  A request that never settles keeps the
    caller waiting. *)
Theorem partner_failure_isolated state att hb evs t :
  snd (getResponderIdentities state att hb evs t) ≠ Threw
  ∧ (fansOut state att hb →
     (∀ id, (id < List.length (responders hb))%nat → id ∉ evs.*1 →
            snd (getResponderIdentities state att hb evs t) = Pending)
     ∧ (settlesAll (List.length (responders hb)) evs →
        ∃ st rs,
          getResponderIdentities state att hb evs t = (st, Done (identity hb :: rs))
          ∧ (∀ id error nr,
               (id, Rejected error) ∈ evs → responders hb !! id = Some nr →
               Call (ErrorResponder (nr_id nr) error) ∈ fo_trace st
               ∧ ∀ r, r ∈ rs → ni_id r ≠ Z.of_nat id + 1)
          ∧ (∀ id data,
               (id, Resolved data) ∈ evs →
               ∃ r, r ∈ rs ∧ ni_id r = Z.of_nat id + 1 ∧ ni_meta r = ni_meta data)
          ∧ List.length rs = List.length (filter (λ ev, succeeded ev = true) evs))).
Proof.
  split; [apply fanout_never_throws|].
  intros Hfan. split; [intros id; by apply fanout_waits|].
  intros Hall.
  pose proof (settlesAll_NoDup _ _ Hall) as Hnodup.
  assert (∀ id, id ∈ fst <$> evs →
                (id < List.length (stripTrailingSlash <$> responders hb))%nat) as Hlt.
  { intros id Hid. rewrite length_fmap. by eapply settlesAll_lt. }
  rewrite (fanout_run _ _ _ _ t Hfan Hall); simpl.
  eexists _, _; split; [done|]. simpl. split; [|split].
  - intros id error nr Hin Hnr. split.
    + apply elem_of_app; right. apply elem_of_app; right.
      apply list_elem_of_omap. exists (id, Rejected error). split; [done|].
      simpl. rewrite list_lookup_fmap, Hnr; simpl. by rewrite stripTrailingSlash_id.
    + intros r Hr Heq.
      apply (list_elem_of_fmap_2 ni_id) in Hr.
      rewrite pushed_ids in Hr by done.
      apply list_elem_of_fmap in Hr as ([id' r'] & Hid' & Hin').
      apply list_elem_of_filter in Hin' as [Hsucc Hin'].
      simpl in Hid'. assert (id' = id) as -> by lia.
      destruct r' as [data|]; [|done].
      by pose proof (NoDup_fst_agree _ _ _ _ Hnodup Hin Hin').
  - intros id data Hin.
    destruct (lookup_lt_is_Some_2 (stripTrailingSlash <$> responders hb) id)
      as [nr Hnr]; [apply Hlt; apply list_elem_of_fmap; by exists (id, Resolved data)|].
    exists (responderIdentity data (nr_address nr) id). split; [|done].
    apply list_elem_of_omap. exists (id, Resolved data). split; [done|].
    simpl. by rewrite Hnr.
  - by apply pushed_length.
Qed.

(** C4.  With a de-identified attestation and a user who may run
    federated queries, for any number N of configured partners whose
    requests all settle: the call resolves with one identity more than
    there were fulfilled requests; the home identity is first, and carries
    id 0 as handed in by the home transport; the ids behind it are
    pairwise distinct and lie between 1 and N. *)
Theorem home_first_ids_distinct state att hb evs t :
  isIdentified att = false →
  isFederatedOkay (userContext (auth state)) = true →
  homeOccupiesId0 hb →
  settlesAll (List.length (responders hb)) evs →
  ∃ rs,
    snd (getResponderIdentities state att hb evs t) = Done rs
    ∧ List.length rs = (1 + List.length (filter (λ ev, succeeded ev = true) evs))%nat
    ∧ rs !! 0%nat = Some (identity hb)
    ∧ ni_id <$> rs !! 0%nat = Some 0
    ∧ NoDup (ni_id <$> tail rs)
    ∧ ∀ r, r ∈ tail rs → 1 ≤ ni_id r ≤ Z.of_nat (List.length (responders hb)).
Proof.
  intros Hdeid Hfed Hhome Hall.
  destruct (decide (responders hb = [])) as [Hnil|Hne].
  - rewrite fanout_not_entered by auto. simpl.
    rewrite Hnil in Hall. unfold settlesAll in Hall; simpl in Hall.
    apply Permutation_nil_r, fmap_nil_inv in Hall as ->.
    exists [identity hb]. simpl. rewrite Hhome.
    split_and!; try done; [apply NoDup_nil_2 | intros r Hr; by apply elem_of_nil in Hr].
  - assert (fansOut state att hb) as Hfan by done.
    assert (∀ id, id ∈ fst <$> evs →
                  (id < List.length (stripTrailingSlash <$> responders hb))%nat) as Hlt.
    { intros id Hid. rewrite length_fmap. by eapply settlesAll_lt. }
    rewrite (fanout_run _ _ _ _ t Hfan Hall); simpl.
    eexists; split; [done|]. simpl. rewrite Hhome, pushed_length, pushed_ids by done.
    split_and!; try done.
    + change (NoDup (((λ id, Z.of_nat id + 1) ∘ fst) <$>
                       filter (λ ev, succeeded ev = true) evs)).
      rewrite list_fmap_compose.
      apply NoDup_fmap_2; [intros ???; lia|].
      eapply sublist_NoDup; [by eapply settlesAll_NoDup|].
      apply fmap_sublist, sublist_filter.
    + intros r Hr.
      apply (list_elem_of_fmap_2 ni_id) in Hr. rewrite pushed_ids in Hr by done.
      apply list_elem_of_fmap in Hr as (ev & -> & Hev).
      apply list_elem_of_filter in Hev as [_ Hev].
      assert (ev.1 < List.length (responders hb))%nat; [|lia].
      eapply settlesAll_lt; [done|]. by apply list_elem_of_fmap_2.
Qed.

(** C8.  The [map] callback strips one trailing slash, and only one, from
    a descriptor's address and leaves other addresses alone; the requests
    are issued, in configured order and before anything settles, with the
    stripped descriptors; hence two partner lists that differ only by such
    a slash give the same requests, the same result and the same trace. *)
Theorem trailing_slash_stripped_before_request :
  (∀ id a, stripTrailingSlash {| nr_id := id; nr_address := a +:+ "/" |}
           = {| nr_id := id; nr_address := a |})
  ∧ (∀ nr, Js.endsWith (nr_address nr) "/" = false → stripTrailingSlash nr = nr)
  ∧ (∀ state att hb evs t,
       fansOut state att hb →
       ∃ t', fo_trace (fst (getResponderIdentities state att hb evs t))
             = t ++ (requestOf ∘ stripTrailingSlash <$> responders hb) ++ t'
             ∧ Forall (λ e, isErrorReport e = true) t')
  ∧ (∀ state att hb hb' evs t,
       identity hb = identity hb' →
       stripTrailingSlash <$> responders hb = stripTrailingSlash <$> responders hb' →
       snd (getResponderIdentities state att hb evs t)
       = snd (getResponderIdentities state att hb' evs t)
       ∧ fo_trace (fst (getResponderIdentities state att hb evs t))
         = fo_trace (fst (getResponderIdentities state att hb' evs t))).
Proof.
  split; [apply stripTrailingSlash_slash|].
  split; [intros nr Hends; unfold stripTrailingSlash; by rewrite Hends|].
  split.
  - intros state att hb evs t Hfan. unfold getResponderIdentities.
    rewrite (fansOut_guard _ _ _ Hfan), launch_all.
    match goal with |- context [foldl settle ?st evs] =>
      destruct (settle_all_trace evs st) as (t2 & Heq & Ht2) end.
    exists t2. split; [|done].
    destruct (allResolved _); simpl; rewrite Heq; simpl; by rewrite app_assoc.
  - intros state att hb hb' evs t Hid Hnodes.
    assert (List.length (responders hb) = List.length (responders hb')) as Hlen.
    { by rewrite <- (length_fmap stripTrailingSlash), Hnodes, length_fmap. }
    unfold getResponderIdentities. rewrite Hid, Hlen.
    destruct (_ && _); [|done].
    rewrite <- Hlen, launch_all. rewrite Hlen, launch_all.
    rewrite !list_fmap_compose, Hnodes. by destruct (allResolved _).
Qed.

End Aggregator.

(** ** attestAndLoadSession: the pipeline *)
Section Pipeline.
Context {JsValue : Type}.
Implicit Types (W : World JsValue) (t : list (Event JsValue)).
Implicit Types (state : AppState JsValue) (att : Attestation JsValue).
Implicit Types (hb : NetworkIdentityRespondersDTO JsValue).

Lemma await_responders W att hb t :
  ∃ t' r, awaitResponderIdentities W att hb t = (t ++ t', r)
          ∧ r ≠ Threw ∧ Forall (λ e, isNodeCall e = true) t'.
Proof.
  unfold awaitResponderIdentities.
  pose proof (fanout_trace (store W t) att hb (w_settlements W) t) as (t' & Heq & Ht').
  pose proof (fanout_never_throws (store W t) att hb (w_settlements W) t) as Hr.
  destruct (getResponderIdentities _ _ _ _ _) as [st r]; simpl in *.
  exists t', r. by rewrite Heq.
Qed.

Lemma progressValues_snoc t e :
  progressValues (t ++ [e]) = progressValues t ++ option_list (progressOf e).
Proof.
  unfold progressValues. rewrite omap_app. simpl. by destruct (progressOf e).
Qed.

Lemma announced_start W : announced W 0 [].
Proof. split; [constructor|done]. Qed.

Lemma announced_progress W n t label percent :
  progressStages !! n = Some percent →
  announced W n t →
  announced W (S n) (t ++ [Dispatch (SetSessionLoadState label percent)]).
Proof.
  intros Hn [Hq Hp]. split.
  - apply Forall_app; split; [done|by constructor].
  - rewrite progressValues_snoc, Hp. cbn [progressOf option_list].
    symmetry. by apply take_S_r.
Qed.

Lemma announced_dispatch W n t a :
  progressOf (Dispatch a) = None →
  announced W n t → announced W n (t ++ [Dispatch a]).
Proof.
  intros Ha [Hq Hp]. split.
  - apply Forall_app; split; [done|by constructor].
  - rewrite progressValues_snoc, Ha, Hp; simpl. by rewrite app_nil_r.
Qed.

Lemma announced_call W n t c :
  fails W c = false → announced W n t → announced W n (t ++ [Call c]).
Proof.
  intros Hc [Hq Hp]. split.
  - apply Forall_app; split; [done|]. constructor; [|done]. simpl. by rewrite Hc.
  - rewrite progressValues_snoc, Hp; simpl. by rewrite app_nil_r.
Qed.

Lemma announced_node_calls W n t t' :
  Forall (λ e, isNodeCall e = true) t' →
  announced W n t → announced W n (t ++ t').
Proof.
  intros Ht' [Hq Hp]. split.
  - apply Forall_app; split; [done|].
    eapply Forall_impl; [exact Ht'|]. by intros [[]|[]].
  - unfold progressValues in *. rewrite omap_app, Hp.
    replace (omap progressOf t') with (@nil Z); [by rewrite app_nil_r|].
    clear -Ht'. induction Ht' as [|e t' He _ IH]; [done|].
    simpl. destruct e as [[]|[]]; done.
Qed.

(** One rule per kind of statement in the [try] block. *)
Lemma continues_progress W n label percent (k : Prog JsValue unit) :
  progressStages !! n = Some percent →
  continuesWell W (S n) k →
  continuesWell W n (bind (dispatch (SetSessionLoadState label percent)) (λ _, k)).
Proof.
  intros Hn Hk t Ht. unfold bind, dispatch.
  apply Hk. by apply announced_progress.
Qed.

Lemma continues_dispatch W n a (k : Prog JsValue unit) :
  progressOf (Dispatch a) = None →
  continuesWell W n k →
  continuesWell W n (bind (dispatch a) (λ _, k)).
Proof.
  intros Ha Hk t Ht. unfold bind, dispatch.
  apply Hk. by apply announced_dispatch.
Qed.

Lemma continues_call {A} W n c (r : Outcome A) (k : A → Prog JsValue unit) :
  (1 ≤ n)%nat →
  fails W c = isThrew r →
  (∀ a, continuesWell W n (k a)) →
  continuesWell W n (bind (call c r) k).
Proof.
  intros Hn Hc Hk t Ht. unfold bind, call.
  destruct r as [a| |]; simpl in Hc.
  - apply Hk. by apply announced_call.
  - by exists n, t, c.
  - exists n. split; [done|]. by apply announced_call.
Qed.

Lemma continues_getState W n (k : AppState JsValue → Prog JsValue unit) :
  (∀ state, continuesWell W n (k state)) →
  continuesWell W n (bind (getState W) k).
Proof. intros Hk t Ht. unfold bind, getState. by apply Hk. Qed.

Lemma continues_await W n att hb (k : list (NetworkIdentity JsValue) → Prog JsValue unit) :
  (1 ≤ n)%nat →
  (∀ rs, continuesWell W n (k rs)) →
  continuesWell W n (bind (awaitResponderIdentities W att hb) k).
Proof.
  intros Hn Hk t Ht. unfold bind.
  destruct (await_responders W att hb t) as (t' & r & -> & Hr & Ht').
  destruct r as [rs| |]; [|done|].
  - apply Hk. by apply announced_node_calls.
  - exists n. split; [done|]. by apply announced_node_calls.
Qed.

Lemma continues_if W n (b : bool) a (k : Prog JsValue unit) :
  progressOf (Dispatch a) = None →
  continuesWell W n k →
  continuesWell W n (bind (if b then dispatch a else ret tt) (λ _, k)).
Proof.
  intros Ha Hk. destruct b.
  - by apply continues_dispatch.
  - intros t Ht. unfold bind, ret. by apply Hk.
Qed.

Lemma continues_reload W state : continuesWell W 10 (handleSessionReload W state).
Proof.
  unfold handleSessionReload.
  apply continues_call; [lia|done|]. intros [prev|] t Ht; [|exact Ht].
  destruct (decide _); [|exact Ht].
  by apply announced_dispatch.
Qed.

Ltac continues_step :=
  cbv beta;
  lazymatch goal with
  | |- continuesWell _ _ (handleSessionReload _ _) =>
      apply continues_reload
  | |- continuesWell _ _ (bind (dispatch (SetSessionLoadState _ _)) _) =>
      apply continues_progress; [reflexivity|]
  | |- continuesWell _ _ (bind (dispatch _) _) =>
      apply continues_dispatch; [reflexivity|]
  | |- continuesWell _ _ (bind (if _ then _ else _) _) =>
      apply continues_if; [reflexivity|]
  | |- continuesWell _ _ (bind (call _ _) _) =>
      apply continues_call; [lia|reflexivity|intros ?]
  | |- continuesWell _ _ (bind (getState _) _) =>
      apply continues_getState; intros ?
  | |- continuesWell _ _ (bind (awaitResponderIdentities _ _ _) _) =>
      apply continues_await; [lia|intros ?]
  end.

(** The [try] block, statement by statement. *)
Lemma try_stops_well W att : stopsWell W (attestAndLoadSession_try W att []).
Proof.
  assert (continuesWell W 0 (attestAndLoadSession_try W att)) as H;
    [|apply H, announced_start].
  unfold attestAndLoadSession_try.
  repeat continues_step.
Qed.

Lemma catch_appends t :
  attestAndLoadSession_catch t
  = (t ++ [Call ConsoleLog;
           Dispatch (SetSessionLoadState errorMessage 0);
           Dispatch (ErrorAttestation true)],
     Done tt).
Proof.
  unfold attestAndLoadSession_catch, bind, call, dispatch.
  by rewrite <- !app_assoc.
Qed.

Lemma run_after_try W att :
  attestAndLoadSession W att []
  = match attestAndLoadSession_try W att [] with
    | (t, Threw) => (t ++ [Call ConsoleLog;
                           Dispatch (SetSessionLoadState errorMessage 0);
                           Dispatch (ErrorAttestation true)],
                     Done tt)
    | res => res
    end.
Proof.
  unfold attestAndLoadSession, tryCatch.
  destruct (attestAndLoadSession_try W att []) as [t [[]| |]]; try done.
  apply catch_appends.
Qed.

Lemma zero_not_announced n : 0 ∉ take n progressStages.
Proof.
  intros Hin. apply elem_of_take in Hin as (i & Hi & _).
  apply list_elem_of_lookup_2 in Hi.
  unfold progressStages in Hi. set_solver.
Qed.

Lemma progressStages_sorted : StronglySorted Z.le progressStages.
Proof. unfold progressStages. repeat (constructor; [|repeat constructor; lia]). constructor. Qed.

(** C5.  On the successful path the percentages dispatched are
    5, 10, 20, ..., 80, 100: non-decreasing, ending at 100.  However the
    run ends, what the [try] block announced is an initial part of that
    list.  When a stage fails the run's percentages are such an initial
    part followed by 0; and 0 is among the percentages only when a stage
    failed, where it comes last. *)
Theorem progress_monotone_until_failure W att :
  let body := attestAndLoadSession_try W att [] in
  let run := attestAndLoadSession W att [] in
  (snd body = Done tt →
     progressValues (fst run) = progressStages
     ∧ StronglySorted Z.le (progressValues (fst run))
     ∧ last (progressValues (fst run)) = Some 100)
  ∧ (∃ n, progressValues (fst body) = take n progressStages)
  ∧ (snd body = Threw →
     ∃ n, progressValues (fst run) = take n progressStages ++ [0])
  ∧ (0 ∈ progressValues (fst run) →
     snd body = Threw ∧ last (progressValues (fst run)) = Some 0).
Proof.
  intros body run. subst run. rewrite run_after_try. fold body.
  pose proof (try_stops_well W att) as Hstop. fold body in Hstop.
  destruct body as [t [[]| |]]; simpl in *.
  - destruct Hstop as [_ Hp]. split_and!; try done.
    + intros _. rewrite Hp. split_and!; [done|apply progressStages_sorted|done].
    + by exists 10%nat.
    + intros H0. rewrite Hp in H0. by apply (zero_not_announced 10) in H0.
  - destruct Hstop as (n & pre & c & Hn & [_ Hp] & -> & _).
    assert (progressValues (pre ++ [Call c]) = take n progressStages) as Hp'.
    { rewrite progressValues_snoc, Hp. simpl. by rewrite app_nil_r. }
    unfold progressValues in *. rewrite omap_app, Hp'. simpl.
    split_and!; try done.
    + by exists n.
    + by exists n.
    + intros _. split; [done|]. by rewrite last_snoc.
  - destruct Hstop as (n & Hn & [_ Hp]). split_and!; try done.
    + by exists n.
    + intros H0. rewrite Hp in H0. by apply zero_not_announced in H0.
Qed.

(** C6.  A stage-level call that fails is never passed over: the [try]
    block throws.  When it throws, the failing call is the last thing the
    block did and was made once; the run then logs the error, dispatches
    the load state with the operator-contact message and progress 0, then
    [errorAttestation(true)], after everything dispatched before, which
    stays as it was; nothing else follows. *)
Theorem stage_failure_aborts_and_reports W att :
  let body := attestAndLoadSession_try W att [] in
  (∀ c, Call c ∈ fst body → fails W c = true → snd body = Threw)
  ∧ (snd body = Threw →
     attestAndLoadSession W att []
     = (fst body ++ [Call ConsoleLog;
                     Dispatch (SetSessionLoadState errorMessage 0);
                     Dispatch (ErrorAttestation true)],
        Done tt)
     ∧ ∃ pre c, fst body = pre ++ [Call c] ∧ fails W c = true ∧ Call c ∉ pre).
Proof.
  intros body. rewrite run_after_try. fold body.
  pose proof (try_stops_well W att) as Hstop. fold body in Hstop.
  assert (∀ t c, quiet W t → Call c ∈ t → fails W c = true → False) as Hquiet.
  { intros t c Hq Hin Hc. unfold quiet in Hq. rewrite Forall_forall in Hq.
    apply Hq in Hin. simpl in Hin. by rewrite Hc in Hin. }
  destruct body as [t [[]| |]]; simpl in *.
  - destruct Hstop as [Hq _]. split; [|done].
    intros c Hin Hc. by destruct (Hquiet t c).
  - destruct Hstop as (n & pre & c & Hn & [Hq _] & -> & Hc).
    split; [done|]. intros _. split; [done|].
    exists pre, c. split_and!; [done|done|].
    intros Hin. by destruct (Hquiet pre c).
  - destruct Hstop as (n & Hn & [Hq _]). split; [|done].
    intros c Hin Hc. by destruct (Hquiet t c).
Qed.

End Pipeline.

(** ** handleSessionReload: the offer to resume *)
Section Continuity.
Context {JsValue : Type}.
Implicit Types (W : World JsValue) (t : list (Event JsValue)).
Implicit Types (state : AppState JsValue) (prev : PrevSession JsValue).







End Continuity.

(** ** logout *)
Section Lifecycle.
Context {JsValue : Type}.
Implicit Types (W : World JsValue) (t : list (Event JsValue)).


(** The [await] in [logout] is not guarded: were the server call to reject
    rather than answer null, [logout] would reject before the clean-up. *)
Lemma logout_rejects_with_server_call W t which :
  mechanism (authentication (config (auth (store W t)))) = Secured which →
  w_logoutFromServer W = Threw →
  logout W t = (t ++ [Call LogoutFromServer], Threw).
Proof.
  intros Hmech Hthrew. unfold logout, bind, getState, logoutFromServer, call.
  by rewrite Hmech, Hthrew.
Qed.

(** Under the unsecured mechanism the server is not called at all. *)
Lemma logout_unsecured W t :
  let cfg := config (auth (store W t)) in
  mechanism (authentication cfg) = Unsecured →
  logout W t = (t ++ [Call (leaves (logoutUri (authentication cfg)))], Done tt).
Proof.
  intros cfg Hmech. unfold logout, bind, getState, call, ret.
  fold cfg. rewrite Hmech.
  by destruct (logoutUri (authentication cfg)) as [[|c s]|].
Qed.

End Lifecycle.

(** ** The statements at the sample inputs *)
Section Instances.
Import Sample.

(** C1, refuted as worded.  Two partners, both answering, the second one
    first: the entry that completed first carries id 2. *)
Lemma ids_by_completion_order_refuted :
  ∃ rs, snd (getResponderIdentities state deidentified homebase reversed []) = Done rs
        ∧ ¬ idsByCompletionOrder rs.
Proof.
  eexists. split; [vm_compute; reflexivity|].
  intros Hids. specialize (Hids 0%nat _ eq_refl). discriminate Hids.
Qed.

Lemma responder_ids_follow_configuration_witness :
  fansOut state deidentified homebase
  ∧ settlesAll 2 reversed
  ∧ ∃ rs,
      snd (getResponderIdentities state deidentified homebase reversed [])
      = Done (home :: rs)
      ∧ Forall2 (appendedFor [nodeA; nodeB]) reversed rs.
Proof.
  split; [by split_and!|]. split; [apply perm_swap|].
  apply (responder_ids_follow_configuration state deidentified homebase reversed []).
  - by split_and!.
  - apply perm_swap.
Defined.

Lemma fanout_skipped_witness :
  isIdentified identified = true
  ∧ getResponderIdentities state identified homebase reversed []
    = ({| fo_responders := [home]; fo_nodes := [nodeA; nodeB];
          fo_resolved := ∅; fo_trace := [] |},
       Done [home]).
Proof.
  split; [reflexivity|].
  apply (fanout_skipped state identified homebase reversed []).
  left. reflexivity.
Defined.

Lemma partner_failure_isolated_witness :
  fansOut state deidentified homebase
  ∧ settlesAll 2 oneDown
  ∧ ∃ st rs,
      getResponderIdentities state deidentified homebase oneDown []
      = (st, Done (home :: rs))
      ∧ Call (ErrorResponder 11 "ECONNREFUSED") ∈ fo_trace st
      ∧ List.length rs = 1%nat.
Proof.
  split; [by split_and!|]. split; [apply perm_swap|].
  destruct (partner_failure_isolated state deidentified homebase oneDown [])
    as [_ Hrun].
  destruct Hrun as [_ Hrun]; [by split_and!|].
  destruct Hrun as (st & rs & Hrun & Hfail & _ & Hlen); [apply perm_swap|].
  exists st, rs. split; [exact Hrun|]. split; [|exact Hlen].
  apply (Hfail 0%nat "ECONNREFUSED" nodeA).
  - apply elem_of_cons; right. apply elem_of_cons; by left.
  - reflexivity.
Defined.

Lemma home_first_ids_distinct_witness :
  isIdentified deidentified = false
  ∧ isFederatedOkay (userContext (auth state)) = true
  ∧ homeOccupiesId0 homebase
  ∧ settlesAll 2 oneDown
  ∧ ∃ rs,
      snd (getResponderIdentities state deidentified homebase oneDown []) = Done rs
      ∧ List.length rs = 2%nat
      ∧ rs !! 0%nat = Some home
      ∧ ni_id <$> rs !! 0%nat = Some 0
      ∧ NoDup (ni_id <$> tail rs)
      ∧ ∀ r, r ∈ tail rs → 1 ≤ ni_id r ≤ 2.
Proof.
  split; [reflexivity|]. split; [reflexivity|]. split; [reflexivity|].
  split; [apply perm_swap|].
  apply (home_first_ids_distinct state deidentified homebase oneDown []).
  - reflexivity.
  - reflexivity.
  - reflexivity.
  - apply perm_swap.
Defined.

Lemma trailing_slash_stripped_before_request_witness :
  stripTrailingSlash nodeA = nodeA'
  ∧ Js.endsWith (nr_address nodeA') "/" = false
  ∧ stripTrailingSlash nodeA' = nodeA'
  ∧ snd (getResponderIdentities state deidentified homebase reversed [])
    = snd (getResponderIdentities state deidentified homebase' reversed [])
  ∧ fo_trace (fst (getResponderIdentities state deidentified homebase reversed []))
    = fo_trace (fst (getResponderIdentities state deidentified homebase' reversed [])).
Proof.
  destruct (@trailing_slash_stripped_before_request string)
    as (Hstrip & Hkeep & _ & Hsame).
  split; [exact (Hstrip 11 "https://node.example")|].
  split; [reflexivity|].
  split; [apply (Hkeep nodeA'); reflexivity|].
  apply (Hsame state deidentified homebase homebase' reversed []); reflexivity.
Defined.

Lemma progress_monotone_until_failure_witness :
  snd (attestAndLoadSession_try fresh deidentified []) = Done tt
  ∧ progressValues (fst (attestAndLoadSession fresh deidentified []))
    = [5; 10; 20; 30; 40; 50; 60; 70; 80; 100]
  ∧ snd (attestAndLoadSession_try freshImportDown deidentified []) = Threw
  ∧ ∃ n, progressValues (fst (attestAndLoadSession freshImportDown deidentified []))
         = take n progressStages ++ [0].
Proof.
  destruct (progress_monotone_until_failure fresh deidentified) as (Hok & _).
  destruct (progress_monotone_until_failure freshImportDown deidentified)
    as (_ & _ & Hfail & _).
  assert (snd (attestAndLoadSession_try fresh deidentified []) = Done tt) as Hdone
    by (vm_compute; reflexivity).
  assert (snd (attestAndLoadSession_try freshImportDown deidentified []) = Threw) as Hthrew
    by (vm_compute; reflexivity).
  split; [exact Hdone|]. split; [exact (proj1 (Hok Hdone))|].
  split; [exact Hthrew|]. exact (Hfail Hthrew).
Defined.

Lemma stage_failure_aborts_and_reports_witness :
  snd (attestAndLoadSession_try freshImportDown deidentified []) = Threw
  ∧ attestAndLoadSession freshImportDown deidentified []
    = (fst (attestAndLoadSession_try freshImportDown deidentified [])
         ++ [Call ConsoleLog;
             Dispatch (SetSessionLoadState errorMessage 0);
             Dispatch (ErrorAttestation true)],
       Done tt).
Proof.
  destruct (stage_failure_aborts_and_reports freshImportDown deidentified)
    as (_ & Hfail).
  assert (snd (attestAndLoadSession_try freshImportDown deidentified []) = Threw) as Hthrew
    by (vm_compute; reflexivity).
  split; [exact Hthrew|]. exact (proj1 (Hfail Hthrew)).
Defined.




Example future_snapshot_text :
  handleSessionReload earlier state []
  = ([Call GetPrevSession;
      Dispatch (ShowConfirmationModal
                  {| cm_body := "Do you want to resume your previous session (saved about -5 minutes ago)?";
                     cm_header := "Continue previous session";
                     cm_onClickNo := [];
                     cm_onClickYes := [SetCurrentQuery "query"; SetPanels "panels";
                                       SetPanelFilterActiveStates "filters"];
                     cm_show := true;
                     cm_noButtonText := "No, I'll start fresh";
                     cm_yesButtonText := "Yes, load my previous query" |})],
     Done tt).
Proof. vm_compute. reflexivity. Qed.

Example completion_order_ids :
  ni_id <$> (fo_responders
               (fst (getResponderIdentities state deidentified homebase reversed [])))
  = [0; 2; 1].
Proof. vm_compute. reflexivity. Qed.

End Instances.
